(** * Marketplace SDK: the API client's request contract

    A shallow embedding of [src/client.ts] (class [MarketplaceClient],
    its private [request] method and the seven public operations) together
    with the platform functions the client calls ([encodeURIComponent],
    [URLSearchParams], [String], property reads, truthiness).

    Modelling conventions.
    - A JavaScript string is represented by the bytes of its UTF-8 encoding
      (a Rocq [string]); only well-formed strings are representable, so
      strings with unpaired surrogates are outside the model.
    - A JavaScript number is represented by an integer ([Z]); the numbers
      this client handles (HTTP status, page, limit) are integers.
    - A promise is represented by its settlement, [Resolved v] or
      [Rejected e]; [await] is the bind of the monad [M] below.
    - An object used as a record of parameters is represented by the
      sequence of entries that [Object.entries] yields; the headers object,
      where order plays no role, is a finite map.
    - The world threaded through the code is the ambient [globalThis.fetch]
      and the log of the calls made to a fetch function. *)

From Stdlib Require Import ZArith NArith Ascii String List Lia.
From stdpp Require Import base option list pretty strings gmap fin_maps.

Open Scope string_scope.
Open Scope Z_scope.

(** ** Characters and percent-encoding *)

Module Chars.

Definition code (c : ascii) : N := N_of_ascii c.

Definition in_range (lo hi : N) (c : ascii) : bool :=
  ((lo <=? code c) && (code c <=? hi))%N.

Definition is_digit (c : ascii) : bool := in_range 48 57 c.
Definition is_upper (c : ascii) : bool := in_range 65 90 c.
Definition is_lower (c : ascii) : bool := in_range 97 122 c.
Definition is_alnum (c : ascii) : bool :=
  is_digit c || is_upper c || is_lower c.

Definition one_of (set : string) (c : ascii) : bool :=
  existsb (Ascii.eqb c) (list_ascii_of_string set).

(** Upper-case hexadecimal digit of a value below 16. *)
Definition hex_digit (n : N) : ascii :=
  match String.get (N.to_nat n) "0123456789ABCDEF" with
  | Some d => d
  | None => "0"%char
  end.

(** [%XX] for one byte. *)
Definition percent_byte (c : ascii) : string :=
  String "%" (String (hex_digit (code c / 16)) (String (hex_digit (code c mod 16)) "")).

Definition is_hex_digit (c : ascii) : bool :=
  is_digit c || in_range 65 70 c.

Definition hex_value (c : ascii) : N :=
  if is_digit c then (code c - 48)%N else (code c - 55)%N.

End Chars.

(** [encodeURIComponent]: ECMAScript [Encode] with the unescaped set
    [uriUnreserved] (letters, digits and [-_.!~*'()]); every other byte of
    the UTF-8 encoding becomes [%XX]. *)
Definition uriUnreserved (c : ascii) : bool :=
  Chars.is_alnum c || Chars.one_of "-_.!~*'()" c.

Fixpoint encodeURIComponent (s : string) : string :=
  match s with
  | EmptyString => ""
  | String c rest =>
      if uriUnreserved c
      then String c (encodeURIComponent rest)
      else Chars.percent_byte c +:+ encodeURIComponent rest
  end.

(** Inverse direction, used only to state that the encoding loses nothing:
    [%XX] is turned back into the byte, anything else is kept. *)
Fixpoint percent_decode (s : string) : string :=
  match s with
  | String "%" (String h (String l rest as tl)) =>
      if Chars.is_hex_digit h && Chars.is_hex_digit l
      then String (ascii_of_N (Chars.hex_value h * 16 + Chars.hex_value l))
                  (percent_decode rest)
      else String "%" (String h (percent_decode tl))
  | String c rest => String c (percent_decode rest)
  | EmptyString => ""
  end.

(** The [application/x-www-form-urlencoded] byte serializer of the URL
    standard, which [URLSearchParams.prototype.toString] applies to names
    and values: space becomes [+], letters, digits and [*-._] are kept,
    every other byte becomes [%XX]. *)
Definition form_safe (c : ascii) : bool :=
  Chars.is_alnum c || Chars.one_of "*-._" c.

Fixpoint urlencoded_serialize (s : string) : string :=
  match s with
  | EmptyString => ""
  | String c rest =>
      if Ascii.eqb c " " then String "+" (urlencoded_serialize rest)
      else if form_safe c then String c (urlencoded_serialize rest)
      else Chars.percent_byte c +:+ urlencoded_serialize rest
  end.

(** ** JavaScript values *)

Set Warnings "-register-all".

(** Decoded JSON bodies, and [undefined] (the value of a missing property). *)
Inductive JsValue : Type :=
  | JUndefined
  | JNull
  | JBool (b : bool)
  | JNumber (n : Z)
  | JString (s : string)
  | JArray (items : list JsValue)
  | JObject (props : list (string * JsValue)).

(** [String(n)] for an integer. *)
Definition NumberToString (n : Z) : string := pretty n.

(** [ToString], as applied by the [Error] constructor to its message. *)
Fixpoint ToString (v : JsValue) : string :=
  match v with
  | JUndefined => "undefined"
  | JNull => "null"
  | JBool true => "true"
  | JBool false => "false"
  | JNumber n => NumberToString n
  | JString s => s
  | JArray items =>
      String.concat ","
        (map (fun x => match x with
                       | JUndefined | JNull => ""
                       | _ => ToString x
                       end) items)
  | JObject _ => "[object Object]"
  end.

(** [ToBoolean]: truthiness. *)
Definition ToBoolean (v : JsValue) : bool :=
  match v with
  | JUndefined | JNull => false
  | JBool b => b
  | JNumber n => negb (n =? 0)
  | JString s => negb (String.eqb s "")
  | JArray _ | JObject _ => true
  end.

(** Truthiness of a string and of an optional string ([undefined] is falsy). *)
Definition truthy_string (s : string) : bool := negb (String.eqb s "").

Definition truthy_opt (o : option string) : bool :=
  match o with
  | Some s => truthy_string s
  | None => false
  end.

(** [a || b] on values. *)
Definition js_or (a b : JsValue) : JsValue := if ToBoolean a then a else b.

(** Own property of an object literal or decoded JSON object. *)
Fixpoint own_property (key : string) (props : list (string * JsValue)) : JsValue :=
  match props with
  | [] => JUndefined
  | (k, v) :: rest => if String.eqb k key then v else own_property key rest
  end.

(** Values a query parameter may take: [string | number | undefined]. *)
Inductive ParamValue : Type :=
  | PUndefined
  | PString (s : string)
  | PNumber (n : Z).

(** [Record<string, string | number | undefined>], as the sequence that
    [Object.entries] yields. *)
Abbreviation Params := (list (string * ParamValue)).

Definition is_defined (v : ParamValue) : bool :=
  match v with
  | PUndefined => false
  | _ => true
  end.

(** [String(value)] on a parameter value. *)
Definition String_ (v : ParamValue) : string :=
  match v with
  | PUndefined => "undefined"
  | PString s => s
  | PNumber n => NumberToString n
  end.

(** ** Errors, promises, responses and the world *)

Inductive JsError : Type :=
  | TypeError (message : string)
  | MarketplaceApiError (message : string) (statusCode : Z)
  | ForeignError (what : string).  (* raised by the transport or JSON decoder *)

Inductive Promise (A : Type) : Type :=
  | Resolved (value : A)
  | Rejected (reason : JsError).
Arguments Resolved {A} value.
Arguments Rejected {A} reason.

(** What the client reads of a response: [ok], [status], and the
    settlement of [json()]. *)
Record Response : Type := mkResponse {
  ok : bool;
  status : Z;
  json : Promise JsValue
}.

(** A response as the Fetch standard builds it: [ok] iff the status is in
    the range 200..299. *)
Definition fetch_response (st : Z) (body : Promise JsValue) : Response :=
  {| ok := (200 <=? st) && (st <=? 299); status := st; json := body |}.

(** [RequestInit]: the [headers] member, and every other member kept
    opaque (the client passes them through untouched). *)
Record RequestInit : Type := mkRequestInit {
  headers : option (gmap string string);
  other : gmap string string
}.

Definition emptyInit : RequestInit := {| headers := None; other := ∅ |}.

(** [typeof fetch]. *)
Definition Fetch : Type := string -> RequestInit -> Promise Response.

Record FetchCall : Type := mkFetchCall {
  call_url : string;
  call_init : RequestInit
}.

Record World : Type := mkWorld {
  globalThis_fetch : option Fetch;
  fetch_log : list FetchCall
}.

(** State-and-exception monad of the asynchronous code. *)
Definition M (A : Type) : Type := World -> Promise A * World.

Definition ret {A} (a : A) : M A := fun w => (Resolved a, w).

Definition throw {A} (e : JsError) : M A := fun w => (Rejected e, w).

Definition bind {A B} (m : M A) (k : A -> M B) : M B :=
  fun w =>
    match m w with
    | (Resolved a, w') => k a w'
    | (Rejected e, w') => (Rejected e, w')
    end.

Notation "x <- m ;; k" := (bind m (fun x => k))
  (at level 100, m at next level, right associativity).

(** [await p] for an already settled promise. *)
Definition await {A} (p : Promise A) : M A := fun w => (p, w).

(** [p.catch(() => v)]. *)
Definition catch_with {A} (p : Promise A) (v : A) : Promise A :=
  match p with
  | Resolved a => Resolved a
  | Rejected _ => Resolved v
  end.

(** Calling a value as a function: a [TypeError] if it is [undefined],
    otherwise the function runs (and the call is recorded). *)
Definition invoke (f : option Fetch) (url : string) (init : RequestInit) : M Response :=
  fun w =>
    match f with
    | None => (Rejected (TypeError "this.fetchFn is not a function"), w)
    | Some fn =>
        (fn url init,
         {| globalThis_fetch := globalThis_fetch w;
            fetch_log := (fetch_log w ++ [mkFetchCall url init])%list |})
    end.

Definition null_read : JsError :=
  TypeError "Cannot read properties of null (reading 'error')".

(** Reading [v.error]: a [TypeError] on [null] and [undefined], the own
    property on an object, [undefined] on every other value (no primitive
    wrapper or array has a property of that name). *)
Definition read_error (v : JsValue) : M JsValue :=
  match v with
  | JUndefined | JNull => throw null_read
  | JObject props => ret (own_property "error" props)
  | _ => ret JUndefined
  end.

(** ** [URLSearchParams] *)

Module URLSearchParams.

(** The list of name/value tuples. *)
Definition t : Type := list (string * string).

Definition new : t := [].

Definition append (sp : t) (name value : string) : t :=
  (sp ++ [(name, value)])%list.

(** One step of the serializer: put [&] unless the output is still
    empty, then [name=value] with both sides byte-serialized. *)
Definition serialize_tuple (output : string) (tuple : string * string) : string :=
  (if String.eqb output "" then output else output +:+ "&")
    +:+ urlencoded_serialize (fst tuple) +:+ "=" +:+ urlencoded_serialize (snd tuple).

Definition toString (sp : t) : string := fold_left serialize_tuple sp "".

End URLSearchParams.

(** ** The client *)

Definition DEFAULT_BASE_URL : string := "https://marketplace.haex.space".

Module MarketplaceClientOptions.
Record t : Type := mk {
  baseUrl : option string;
  platform : option string;
  appVersion : option string;
  fetch : option Fetch
}.
(** [{}] *)
Definition empty : t :=
  {| baseUrl := None; platform := None; appVersion := None; fetch := None |}.
End MarketplaceClientOptions.

Record MarketplaceClient : Type := mkClient {
  baseUrl : string;
  platform : option string;
  appVersion : option string;
  fetchFn : option Fetch
}.

(** [a ?? b] *)
Definition nullish {A} (a : option A) (b : A) : A :=
  match a with
  | Some x => x
  | None => b
  end.

(** [a ?? b] where [b] may itself be [undefined]. *)
Definition nullish_opt {A} (a b : option A) : option A :=
  match a with
  | Some x => Some x
  | None => b
  end.

(** [constructor(options = {})]; it reads [globalThis.fetch]. *)
Definition new_MarketplaceClient
    (options : option MarketplaceClientOptions.t) : M MarketplaceClient :=
  fun w =>
    let options := nullish options MarketplaceClientOptions.empty in
    (Resolved
       {| baseUrl := nullish (MarketplaceClientOptions.baseUrl options) DEFAULT_BASE_URL;
          platform := MarketplaceClientOptions.platform options;
          appVersion := MarketplaceClientOptions.appVersion options;
          fetchFn := nullish_opt (MarketplaceClientOptions.fetch options)
                                 (globalThis_fetch w) |},
     w).

Definition createMarketplaceClient
    (options : option MarketplaceClientOptions.t) : M MarketplaceClient :=
  new_MarketplaceClient options.

(** [RequestInit & { params?: Record<string, string | number | undefined> }] *)
Record RequestOptions : Type := mkRequestOptions {
  params : option Params;
  fetchOptions : RequestInit
}.

Definition noOptions : RequestOptions := {| params := None; fetchOptions := emptyInit |}.

(** Lines 48-61: the URL. *)
Definition append_defined (sp : URLSearchParams.t) (entry : string * ParamValue)
  : URLSearchParams.t :=
  if is_defined (snd entry)
  then URLSearchParams.append sp (fst entry) (String_ (snd entry))
  else sp.

Definition request_url (this : MarketplaceClient) (endpoint : string)
    (params : option Params) : string :=
  let url := baseUrl this +:+ endpoint in
  match params with
  | Some entries =>
      let searchParams := fold_left append_defined entries URLSearchParams.new in
      let queryString := URLSearchParams.toString searchParams in
      if truthy_string queryString then url +:+ "?" +:+ queryString else url
  | None => url
  end.

(** Lines 63-73: the headers. *)
Definition set_if_truthy (name : string) (value : option string)
    (hs : gmap string string) : gmap string string :=
  match value with
  | Some v => if truthy_string v then <[name := v]> hs else hs
  | None => hs
  end.

Definition request_headers (this : MarketplaceClient) (fetchOptions : RequestInit)
  : gmap string string :=
  let hs := nullish (headers fetchOptions) ∅ ∪ {[ "Content-Type" := "application/json" ]} in
  let hs := set_if_truthy "X-Platform" (platform this) hs in
  set_if_truthy "X-App-Version" (appVersion this) hs.

Definition http_message (response : Response) : string :=
  "HTTP " +:+ NumberToString (status response).

(** Lines 80-90: what is made of the response. *)
Definition settle (response : Response) : M JsValue :=
  if negb (ok response) then
    errorData <- await (catch_with (json response)
                          (JObject [("error", JString (http_message response))])) ;;
    error <- read_error errorData ;;
    throw (MarketplaceApiError
             (ToString (js_or error (JString (http_message response))))
             (status response))
  else
    await (json response).

Definition request (this : MarketplaceClient) (endpoint : string)
    (options : option RequestOptions) : M JsValue :=
  let options := nullish options noOptions in
  let url := request_url this endpoint (params options) in
  let hs := request_headers this (fetchOptions options) in
  response <- invoke (fetchFn this) url
                {| headers := Some hs; other := other (fetchOptions options) |} ;;
  settle response.

Definition with_params (ps : option Params) : option RequestOptions :=
  Some {| params := ps; fetchOptions := emptyInit |}.

Definition listExtensions (this : MarketplaceClient) (ps : option Params) : M JsValue :=
  request this "/extensions" (with_params ps).

Definition getExtension (this : MarketplaceClient) (slug : string) : M JsValue :=
  request this ("/extensions/" +:+ encodeURIComponent slug) None.

Definition listCategories (this : MarketplaceClient) : M JsValue :=
  request this "/categories" None.

Definition getDownloadUrl (this : MarketplaceClient) (slug : string)
    (version : option string) : M JsValue :=
  request this ("/extensions/" +:+ encodeURIComponent slug +:+ "/download")
    (with_params
       (if truthy_opt version
        then Some [("version", match version with
                               | Some v => PString v
                               | None => PUndefined
                               end)]
        else None)).

Definition listVersions (this : MarketplaceClient) (slug : string) : M JsValue :=
  request this ("/extensions/" +:+ encodeURIComponent slug +:+ "/versions") None.

Definition listReviews (this : MarketplaceClient) (slug : string)
    (ps : option Params) : M JsValue :=
  request this ("/extensions/" +:+ encodeURIComponent slug +:+ "/reviews")
    (with_params ps).

Definition health (this : MarketplaceClient) : M JsValue :=
  request this "/health" None.

(** The seven public operations with their arguments. *)
Inductive Operation : Type :=
  | ListExtensions (ps : option Params)
  | GetExtension (slug : string)
  | ListCategories
  | GetDownloadUrl (slug : string) (version : option string)
  | ListVersions (slug : string)
  | ListReviews (slug : string) (ps : option Params)
  | Health.

Definition perform (this : MarketplaceClient) (op : Operation) : M JsValue :=
  match op with
  | ListExtensions ps => listExtensions this ps
  | GetExtension slug => getExtension this slug
  | ListCategories => listCategories this
  | GetDownloadUrl slug version => getDownloadUrl this slug version
  | ListVersions slug => listVersions this slug
  | ListReviews slug ps => listReviews this slug ps
  | Health => health this
  end.

(** ** Vocabulary of the statements *)

(** The world after one more recorded call. *)
Definition log_call (w : World) (call : FetchCall) : World :=
  {| globalThis_fetch := globalThis_fetch w;
     fetch_log := (fetch_log w ++ [call])%list |}.

(** The single call [request] hands to the fetch function. *)
Definition request_call (this : MarketplaceClient) (endpoint : string)
    (options : option RequestOptions) : FetchCall :=
  let options := nullish options noOptions in
  {| call_url := request_url this endpoint (params options);
     call_init :=
       {| headers := Some (request_headers this (fetchOptions options));
          other := other (fetchOptions options) |} |}.

(** Settlement of the call once the response is there ([settle] does not
    touch the world, see [settle_eq]). *)
Definition settled (response : Response) : Promise JsValue :=
  fst (settle response (mkWorld None [])).

(** Settlement of the call from the settlement of the fetch promise. *)
Definition outcome (p : Promise Response) : Promise JsValue :=
  match p with
  | Resolved response => settled response
  | Rejected e => Rejected e
  end.

(** Headers of a recorded call ([request] always sets them). *)
Definition call_headers (call : FetchCall) : gmap string string :=
  nullish (headers (call_init call)) ∅.

(** The query string in the words of the specification: drop the entries
    whose value is undefined, encode each remaining entry as [key=value],
    keep the order, join with [&]. *)
Definition spec_pair (entry : string * ParamValue) : string :=
  urlencoded_serialize (fst entry) +:+ "=" +:+ urlencoded_serialize (String_ (snd entry)).

Definition spec_query_string (entries : Params) : string :=
  String.concat "&" (map spec_pair (filter (fun e => is_defined (snd e) = true) entries)).

(** What follows the path in the URL, in the words of the specification:
    nothing without parameters or when the query string is empty,
    otherwise [?] and the query string. *)
Definition query_suffix (ps : option Params) : string :=
  match ps with
  | None => ""
  | Some entries =>
      if decide (spec_query_string entries = "") then ""
      else "?" +:+ spec_query_string entries
  end.

(** URLs of the calls recorded once the computation has run from [w]. *)
Definition sent_urls (run : M JsValue) (w : World) : list string :=
  map call_url (fetch_log (snd (run w))).

(** Splitting a path at every [/]. *)
Fixpoint path_segments (s : string) : list string :=
  match s with
  | EmptyString => [""]
  | String c rest =>
      if Ascii.eqb c "/" then "" :: path_segments rest
      else match path_segments rest with
           | seg :: segs => String c seg :: segs
           | [] => [String c ""]
           end
  end.

(** Does the character occur in the string? *)
Fixpoint occurs (c : ascii) (s : string) : bool :=
  match s with
  | EmptyString => false
  | String d rest => Ascii.eqb c d || occurs c rest
  end.

(** The bodies of the documented examples. *)
Definition empty_listing : JsValue :=
  JObject [("extensions", JArray []);
           ("pagination", JObject [("page", JNumber 1); ("limit", JNumber 20);
                                   ("total", JNumber 0); ("totalPages", JNumber 0)])].


(** A fetch function that always answers with the same response. *)
Definition stub (response : Response) : Fetch := fun _ _ => Resolved response.

(** A fetch function that always fails. *)
Definition failing (e : JsError) : Fetch := fun _ _ => Rejected e.

Definition fresh_world (ambient : option Fetch) : World :=
  {| globalThis_fetch := ambient; fetch_log := [] |}.

Definition not_a_function : JsError := TypeError "this.fetchFn is not a function".

(** ** The reactive wrapper ([useMarketplace])

    The composable keeps six refs and wraps five client operations in
    [withLoading]. Its state is threaded next to the world; one wrapped call
    is run to completion (calls in flight at the same time are not
    modelled). *)

(** Reading [v.key] for a key that no built-in prototype defines (the
    wrapper reads [extensions], [pagination], [total], [categories] and
    [versions]): a [TypeError] on [null] and [undefined], the own property on
    an object, [undefined] on every other value. *)
Definition cannot_read (v : JsValue) (key : string) : JsError :=
  TypeError ("Cannot read properties of "
             +:+ (match v with JUndefined => "undefined" | _ => "null" end)
             +:+ " (reading '" +:+ key +:+ "')").

Definition read_property (key : string) (v : JsValue) : Promise JsValue :=
  match v with
  | JUndefined | JNull => Rejected (cannot_read v key)
  | JObject props => Resolved (own_property key props)
  | _ => Resolved JUndefined
  end.

Module UseMarketplace.

(** What the [error] ref holds when it is not [null]: the caught value
    itself, or [new Error(String(e))]. *)
Inductive ErrorValue : Type :=
  | Caught (e : JsError)
  | NewError (message : string).

(** The refs created at lines 59-66. *)
Record Refs : Type := mkRefs {
  isLoading : bool;
  error : option ErrorValue;
  extensions : JsValue;
  extensionsTotal : JsValue;
  currentExtension : JsValue;
  categories : JsValue
}.

Definition initial : Refs :=
  {| isLoading := false; error := None; extensions := JArray [];
     extensionsTotal := JNumber 0; currentExtension := JNull;
     categories := JArray [] |}.

(** The monad of the wrapper's asynchronous code: the refs and the world
    are both kept when a computation rejects. *)
Definition V (A : Type) : Type := Refs -> World -> Promise A * Refs * World.

Definition vret {A} (a : A) : V A := fun s w => (Resolved a, s, w).

Definition vthrow {A} (e : JsError) : V A := fun s w => (Rejected e, s, w).

Definition vbind {A B} (m : V A) (k : A -> V B) : V B :=
  fun s w =>
    match m s w with
    | (Resolved a, s', w') => k a s' w'
    | (Rejected e, s', w') => (Rejected e, s', w')
    end.

Notation "x <~ m ;; k" := (vbind m (fun x => k))
  (at level 100, m at next level, right associativity).

(** Awaiting a client call. *)
Definition lift {A} (m : M A) : V A :=
  fun s w => let (r, w') := m w in (r, s, w').

(** A step that may throw and touches nothing. *)
Definition try_value {A} (p : Promise A) : V A := fun s w => (p, s, w).

Definition set_isLoading (b : bool) : V unit :=
  fun s w =>
    (Resolved tt,
     {| isLoading := b; error := error s; extensions := extensions s;
        extensionsTotal := extensionsTotal s;
        currentExtension := currentExtension s; categories := categories s |},
     w).

Definition set_error (e : option ErrorValue) : V unit :=
  fun s w =>
    (Resolved tt,
     {| isLoading := isLoading s; error := e; extensions := extensions s;
        extensionsTotal := extensionsTotal s;
        currentExtension := currentExtension s; categories := categories s |},
     w).

Definition set_extensions (v : JsValue) : V unit :=
  fun s w =>
    (Resolved tt,
     {| isLoading := isLoading s; error := error s; extensions := v;
        extensionsTotal := extensionsTotal s;
        currentExtension := currentExtension s; categories := categories s |},
     w).

Definition set_extensionsTotal (v : JsValue) : V unit :=
  fun s w =>
    (Resolved tt,
     {| isLoading := isLoading s; error := error s; extensions := extensions s;
        extensionsTotal := v;
        currentExtension := currentExtension s; categories := categories s |},
     w).

Definition set_currentExtension (v : JsValue) : V unit :=
  fun s w =>
    (Resolved tt,
     {| isLoading := isLoading s; error := error s; extensions := extensions s;
        extensionsTotal := extensionsTotal s;
        currentExtension := v; categories := categories s |},
     w).

Definition set_categories (v : JsValue) : V unit :=
  fun s w =>
    (Resolved tt,
     {| isLoading := isLoading s; error := error s; extensions := extensions s;
        extensionsTotal := extensionsTotal s;
        currentExtension := currentExtension s; categories := v |},
     w).

(** [try { m } catch (e) { h e }] *)
Definition try_catch {A} (m : V A) (h : JsError -> V A) : V A :=
  fun s w =>
    match m s w with
    | (Resolved a, s', w') => (Resolved a, s', w')
    | (Rejected e, s', w') => h e s' w'
    end.

(** [try { m } finally { f }]: [f] runs in both cases, the settlement of
    [m] is kept unless [f] itself throws. *)
Definition try_finally {A} (m : V A) (f : V unit) : V A :=
  fun s w =>
    match m s w with
    | (r, s', w') =>
        match f s' w' with
        | (Resolved _, s'', w'') => (r, s'', w'')
        | (Rejected e, s'', w'') => (Rejected e, s'', w'')
        end
    end.

(** The arrow functions handed to [withLoading]. *)

(** Lines 84-89. *)
Definition fetchExtensions_fn (client : MarketplaceClient) (ps : option Params)
  : V JsValue :=
  response <~ lift (listExtensions client ps) ;;
  exts <~ try_value (read_property "extensions" response) ;;
  _ <~ set_extensions exts ;;
  pagination <~ try_value (read_property "pagination" response) ;;
  total <~ try_value (read_property "total" pagination) ;;
  _ <~ set_extensionsTotal total ;;
  vret response.

(** Lines 93-97. *)
Definition fetchExtension_fn (client : MarketplaceClient) (slug : string)
  : V JsValue :=
  extension <~ lift (getExtension client slug) ;;
  _ <~ set_currentExtension extension ;;
  vret extension.

(** Lines 102-106. *)
Definition fetchCategories_fn (client : MarketplaceClient) : V JsValue :=
  response <~ lift (listCategories client) ;;
  cats <~ try_value (read_property "categories" response) ;;
  _ <~ set_categories cats ;;
  try_value (read_property "categories" response).

(** Lines 111-113. *)
Definition getDownloadUrl_fn (client : MarketplaceClient) (slug : string)
    (version : option string) : V JsValue :=
  lift (getDownloadUrl client slug version).

(** Lines 118-121. *)
Definition fetchVersions_fn (client : MarketplaceClient) (slug : string)
  : V JsValue :=
  response <~ lift (listVersions client slug) ;;
  try_value (read_property "versions" response).

Section Thrown.

(** Whether a value thrown by the transport or the decoder is an [Error]
    object is not fixed by the client; it is a parameter here. Of such a
    value, [what] stands for [String(e)]. *)
Variable foreign_is_Error : string -> bool.

(** [e instanceof Error] *)
Definition instanceof_Error (e : JsError) : bool :=
  match e with
  | TypeError _ | MarketplaceApiError _ _ => true
  | ForeignError what => foreign_is_Error what
  end.

(** [String(e)]: for an [Error] object, [Error.prototype.toString]. *)
Definition error_toString (name message : string) : string :=
  if String.eqb message "" then name else name +:+ ": " +:+ message.

Definition String_of_thrown (e : JsError) : string :=
  match e with
  | TypeError message => error_toString "TypeError" message
  | MarketplaceApiError message _ => error_toString "MarketplaceApiError" message
  | ForeignError what => what
  end.

(** [e instanceof Error ? e : new Error(String(e))] *)
Definition as_Error (e : JsError) : ErrorValue :=
  if instanceof_Error e then Caught e else NewError (String_of_thrown e).

(** Lines 69-80. *)
Definition withLoading {A} (fn : V A) : V A :=
  _ <~ set_isLoading true ;;
  _ <~ set_error None ;;
  try_finally
    (try_catch fn (fun e => _ <~ set_error (Some (as_Error e)) ;; vthrow e))
    (set_isLoading false).

(** Lines 83-90. *)
Definition fetchExtensions (client : MarketplaceClient) (ps : option Params)
  : V JsValue :=
  withLoading (fetchExtensions_fn client ps).

(** Lines 92-98. *)
Definition fetchExtension (client : MarketplaceClient) (slug : string)
  : V JsValue :=
  withLoading (fetchExtension_fn client slug).

(** Lines 101-107. *)
Definition fetchCategories (client : MarketplaceClient) : V JsValue :=
  withLoading (fetchCategories_fn client).

(** Lines 110-114. *)
Definition getDownloadUrl (client : MarketplaceClient) (slug : string)
    (version : option string) : V JsValue :=
  withLoading (getDownloadUrl_fn client slug version).

(** Lines 117-122. *)
Definition fetchVersions (client : MarketplaceClient) (slug : string)
  : V JsValue :=
  withLoading (fetchVersions_fn client slug).

End Thrown.

(** Lines 124-126. *)
Definition clearError : V unit := set_error None.

(** Lines 56-66: the client and the refs of a new composable. *)
Definition useMarketplace (options : option MarketplaceClientOptions.t)
  : M (MarketplaceClient * Refs) :=
  client <- new_MarketplaceClient options ;;
  ret (client, initial).

(** The five wrapped operations with their arguments. *)
Inductive Wrapped : Type :=
  | FetchExtensions (ps : option Params)
  | FetchExtension (slug : string)
  | FetchCategories
  | DownloadUrl (slug : string) (version : option string)
  | FetchVersions (slug : string).

Definition run (foreign_is_Error : string -> bool) (client : MarketplaceClient)
    (op : Wrapped) : V JsValue :=
  match op with
  | FetchExtensions ps => fetchExtensions foreign_is_Error client ps
  | FetchExtension slug => fetchExtension foreign_is_Error client slug
  | FetchCategories => fetchCategories foreign_is_Error client
  | DownloadUrl slug version => getDownloadUrl foreign_is_Error client slug version
  | FetchVersions slug => fetchVersions foreign_is_Error client slug
  end.

(** The arrow function of a wrapped operation. *)
Definition callback (client : MarketplaceClient) (op : Wrapped) : V JsValue :=
  match op with
  | FetchExtensions ps => fetchExtensions_fn client ps
  | FetchExtension slug => fetchExtension_fn client slug
  | FetchCategories => fetchCategories_fn client
  | DownloadUrl slug version => getDownloadUrl_fn client slug version
  | FetchVersions slug => fetchVersions_fn client slug
  end.

(** The client operation that a wrapped operation awaits. *)
Definition client_operation (op : Wrapped) : Operation :=
  match op with
  | FetchExtensions ps => ListExtensions ps
  | FetchExtension slug => GetExtension slug
  | FetchCategories => ListCategories
  | DownloadUrl slug version => GetDownloadUrl slug version
  | FetchVersions slug => ListVersions slug
  end.

(** The refs as they are when the arrow function starts: loading, no error. *)
Definition started (s : Refs) : Refs :=
  {| isLoading := true; error := None; extensions := extensions s;
     extensionsTotal := extensionsTotal s;
     currentExtension := currentExtension s; categories := categories s |}.

(** The refs when the wrapped call is over: not loading, and the error
    slot as given. *)
Definition finished (e : option ErrorValue) (s : Refs) : Refs :=
  {| isLoading := false; error := e; extensions := extensions s;
     extensionsTotal := extensionsTotal s;
     currentExtension := currentExtension s; categories := categories s |}.

(** The four data refs. *)
Definition data (s : Refs) : JsValue * JsValue * JsValue * JsValue :=
  (extensions s, extensionsTotal s, currentExtension s, categories s).

End UseMarketplace.

(** ** Reading a query string back

    What [new URLSearchParams(query)] does with a query string (the
    [application/x-www-form-urlencoded] parser of the URL standard), used to
    state that the serialized parameters can be recovered. Escapes are read
    with upper-case hexadecimal digits, the only ones the serializer
    writes. *)

(** Splitting at every occurrence of a character. *)
Fixpoint split_on (c : ascii) (s : string) : list string :=
  match s with
  | EmptyString => [""]
  | String d rest =>
      if Ascii.eqb d c then "" :: split_on c rest
      else match split_on c rest with
           | piece :: pieces => String d piece :: pieces
           | [] => [String d ""]
           end
  end.

(** Cutting at the first occurrence of a character: what is before it, and
    what is after it if it occurs. *)
Fixpoint cut_at (c : ascii) (s : string) : string * option string :=
  match s with
  | EmptyString => ("", None)
  | String d rest =>
      if Ascii.eqb d c then ("", Some rest)
      else let (before, after) := cut_at c rest in (String d before, after)
  end.

Fixpoint plus_to_space (s : string) : string :=
  match s with
  | EmptyString => ""
  | String c rest =>
      String (if Ascii.eqb c "+" then " "%char else c) (plus_to_space rest)
  end.

Definition form_decode (s : string) : string := percent_decode (plus_to_space s).

Definition parse_tuple (sequence : string) : string * string :=
  let (name, value) := cut_at "=" sequence in
  (form_decode name, form_decode (nullish value "")).

Definition parse_query (query : string) : list (string * string) :=
  map parse_tuple (filter (λ sequence, sequence ≠ "") (split_on "&" query)).

(** The name/value pairs a parameter mapping stands for: its defined
    entries, values as strings. *)
Definition defined_pairs (entries : Params) : list (string * string) :=
  map (λ e, (fst e, String_ (snd e)))
      (filter (λ e, is_defined (snd e) = true) entries).

(** Every character of the string satisfies the test. *)
Fixpoint forall_chars (test : ascii -> bool) (s : string) : bool :=
  match s with
  | EmptyString => true
  | String c rest => test c && forall_chars test rest
  end.

(** Characters the client writes after the base URL: letters, digits, the
    unreserved marks, and the delimiters of path, query and escapes. *)
Definition url_tail_char (c : ascii) : bool :=
  Chars.is_alnum c || Chars.one_of "-_.!~*'()/?&=+%" c.

(** The endpoint each public operation hands to [request] (lines 97, 106,
    113, 123, 133, 142, 151), and the operation without its query
    parameters. *)
Definition endpoint_of (op : Operation) : string :=
  match op with
  | ListExtensions _ => "/extensions"
  | GetExtension slug => "/extensions/" +:+ encodeURIComponent slug
  | ListCategories => "/categories"
  | GetDownloadUrl slug _ => "/extensions/" +:+ encodeURIComponent slug +:+ "/download"
  | ListVersions slug => "/extensions/" +:+ encodeURIComponent slug +:+ "/versions"
  | ListReviews slug _ => "/extensions/" +:+ encodeURIComponent slug +:+ "/reviews"
  | Health => "/health"
  end.

Definition without_params (op : Operation) : Operation :=
  match op with
  | ListExtensions _ => ListExtensions None
  | GetDownloadUrl slug _ => GetDownloadUrl slug None
  | ListReviews slug _ => ListReviews slug None
  | other_op => other_op
  end.

(** ** Basic facts about the monadic code *)

Lemma settle_eq (response : Response) (w : World) :
  settle response w = (settled response, w).
Proof.
  unfold settled, settle, bind, await, throw, catch_with.
  destruct (ok response); simpl; [ by destruct (json response) | ].
  destruct (json response) as [body | e]; simpl; [ | done ].
  by destruct body.
Qed.

(** Every public operation is one call of [request]. *)
Lemma perform_is_request (this : MarketplaceClient) (op : Operation) :
  ∃ endpoint options, perform this op = request this endpoint options.
Proof.
  destruct op; simpl; eexists _, _; reflexivity.
Qed.

Section WithFetch.

(** A client that holds a fetch function. *)
Variable this : MarketplaceClient.
Variable fn : Fetch.
Hypothesis Hfn : fetchFn this = Some fn.

Lemma request_with_fetch
    (endpoint : string) (options : option RequestOptions) (w : World) :
  request this endpoint options w =
    (outcome (fn (call_url (request_call this endpoint options))
                 (call_init (request_call this endpoint options))),
     log_call w (request_call this endpoint options)).
Proof.
  unfold request, bind, invoke, request_call, outcome, log_call.
  rewrite Hfn. simpl.
  destruct (fn _ _) as [response | e]; [ apply settle_eq | done ].
Qed.

Lemma perform_with_fetch (op : Operation) (w : World) :
  ∃ call, perform this op w =
            (outcome (fn (call_url call) (call_init call)), log_call w call).
Proof.
  destruct (perform_is_request this op) as (endpoint & options & ->).
  eexists. apply request_with_fetch.
Qed.

End WithFetch.

Section WithoutFetch.

(** A client whose [fetchFn] is [undefined]. *)
Variable this : MarketplaceClient.
Hypothesis Hfn : fetchFn this = None.

Lemma request_without_fetch
    (endpoint : string) (options : option RequestOptions) (w : World) :
  request this endpoint options w = (Rejected not_a_function, w).
Proof.
  unfold request, bind, invoke. by rewrite Hfn.
Qed.

Lemma perform_without_fetch (op : Operation) (w : World) :
  perform this op w = (Rejected not_a_function, w).
Proof.
  destruct (perform_is_request this op) as (endpoint & options & ->).
  apply request_without_fetch.
Qed.

End WithoutFetch.

(** ** Where the fetch function comes from (C1) *)

(** C1, as claimed, fails: a client built without a transport does not
    look up the ambient fetch when a request is made. Built where there is
    no ambient fetch and used after one has been installed, it still fails,
    while a client holding the call-time fetch would succeed. *)
Lemma ambient_fetch_not_resolved_at_call_time :
  ¬ (∀ (w_ctor w_call : World) (this : MarketplaceClient),
       new_MarketplaceClient None w_ctor = (Resolved this, w_ctor) →
       fst (health this w_call) =
       fst (health (mkClient (baseUrl this) (platform this) (appVersion this)
                             (globalThis_fetch w_call)) w_call)).
Proof.
  intros claim.
  pose (installed := stub (fetch_response 200 (Resolved (JObject [("status", JString "ok")])))).
  specialize (claim (fresh_world None) (fresh_world (Some installed)) _ eq_refl).
  vm_compute in claim. discriminate claim.
Qed.

(** C1 (amended): without a transport in the options the constructor
    always succeeds and stores the ambient fetch of that moment; every later
    operation uses exactly this stored value whatever the ambient fetch has
    become: if none was there at construction each operation fails with a
    [TypeError] and calls nothing, otherwise the stored function is the one
    called. *)
Theorem fetch_captured_at_construction
    (options : option MarketplaceClientOptions.t) (w_ctor : World) :
  MarketplaceClientOptions.fetch (nullish options MarketplaceClientOptions.empty) = None →
  ∃ this,
    new_MarketplaceClient options w_ctor = (Resolved this, w_ctor)
    ∧ fetchFn this = globalThis_fetch w_ctor
    ∧ ∀ (op : Operation) (w_call : World),
        match globalThis_fetch w_ctor with
        | None => perform this op w_call = (Rejected not_a_function, w_call)
        | Some fn =>
            ∃ call, perform this op w_call =
                      (outcome (fn (call_url call) (call_init call)),
                       log_call w_call call)
        end.
Proof.
  intros Hnone. eexists. split; [ reflexivity | ]. simpl. rewrite Hnone. simpl.
  split; [ reflexivity | ]. intros op w_call.
  destruct (globalThis_fetch w_ctor) as [fn |] eqn:Hamb.
  - by apply perform_with_fetch.
  - by apply perform_without_fetch.
Qed.

Lemma fetch_captured_at_construction_witness :
  ∃ this,
    new_MarketplaceClient None (fresh_world None) = (Resolved this, fresh_world None)
    ∧ fetchFn this = None
    ∧ ∀ (op : Operation) (w_call : World),
        perform this op w_call = (Rejected not_a_function, w_call).
Proof.
  exact (fetch_captured_at_construction None (fresh_world None) eq_refl).
Defined.

(** ** One round trip per call (C8) *)


(** ** Identity headers (C2) *)

Lemma truthy_string_ne (s : string) : s ≠ "" → truthy_string s = true.
Proof.
  intros Hne. unfold truthy_string. by destruct (String.eqb_spec s "").
Qed.


Lemma set_if_truthy_other (name name' : string) (value : option string)
    (hs : gmap string string) :
  name ≠ name' → set_if_truthy name value hs !! name' = hs !! name'.
Proof.
  intros Hne. unfold set_if_truthy.
  destruct value as [v |]; [ | done ].
  destruct (truthy_string v); [ by apply lookup_insert_ne | done ].
Qed.



(** [Content-Type] is [application/json] unless the caller overrides it. *)
Lemma content_type_header (this : MarketplaceClient) (other_fields : gmap string string) :
  request_headers this {| headers := None; other := other_fields |} !! "Content-Type"
  = Some "application/json".
Proof.
  unfold request_headers. rewrite !set_if_truthy_other by done. simpl.
  rewrite (left_id_L ∅ (∪)). apply lookup_singleton_eq.
Qed.




(** ** Query string (C4) *)

Lemma append_nil_l (b : string) : "" +:+ b = b.
Proof. reflexivity. Qed.

Lemma append_cons (ch : ascii) (a b : string) :
  String ch a +:+ b = String ch (a +:+ b).
Proof. reflexivity. Qed.

Lemma append_assoc (a b c : string) : (a +:+ b) +:+ c = a +:+ (b +:+ c).
Proof.
  induction a as [| ch a IH]; [ done | ].
  by rewrite !append_cons, IH.
Qed.

Lemma append_nil_r (a : string) : a +:+ "" = a.
Proof.
  induction a as [| ch a IH]; [ done | ].
  by rewrite append_cons, IH.
Qed.

Lemma append_eq_nil (a b : string) : a +:+ b = "" → a = "" ∧ b = "".
Proof.
  destruct a; [ by rewrite append_nil_l | rewrite append_cons; discriminate ].
Qed.

Lemma spec_pair_nonempty (entry : string * ParamValue) : spec_pair entry ≠ "".
Proof.
  unfold spec_pair. intros Heq.
  apply append_eq_nil in Heq as [_ Heq]. discriminate Heq.
Qed.

(** The loop over [Object.entries(params)] appends, in order, the entries
    whose value is defined. *)
Lemma fold_append_defined (entries : Params) (sp : URLSearchParams.t) :
  fold_left append_defined entries sp =
  (sp ++ map (λ e, (fst e, String_ (snd e)))
            (filter (λ e, is_defined (snd e) = true) entries))%list.
Proof.
  revert sp. induction entries as [| [key value] entries IH]; intros sp.
  - simpl. by rewrite app_nil_r.
  - rewrite filter_cons. cbn [fold_left]. rewrite IH.
    unfold append_defined, URLSearchParams.append. cbn [fst snd].
    destruct (is_defined value) eqn:Hdef; case_decide; try done.
    by rewrite <- app_assoc.
Qed.

Lemma concat_empty_cons (x : string) (xs : list string) :
  String.concat "" (x :: xs) = x +:+ String.concat "" xs.
Proof.
  destruct xs as [| y ys]; simpl; [ by rewrite append_nil_r | by rewrite append_nil_l ].
Qed.

(** The serializer started on a non-empty output puts [&] before every tuple. *)
Lemma serialize_from_nonempty (sp : URLSearchParams.t) (output : string) :
  output ≠ "" →
  fold_left URLSearchParams.serialize_tuple sp output =
  output +:+ String.concat ""
    (map (λ t, "&" +:+ urlencoded_serialize (fst t) +:+ "=" +:+ urlencoded_serialize (snd t)) sp).
Proof.
  revert output. induction sp as [| t sp IH]; intros output Hne.
  - simpl. by rewrite append_nil_r.
  - rewrite map_cons, concat_empty_cons. cbn [fold_left].
    assert (Hstep : URLSearchParams.serialize_tuple output t =
              output +:+ "&" +:+ urlencoded_serialize (fst t) +:+ "="
                +:+ urlencoded_serialize (snd t)).
    { unfold URLSearchParams.serialize_tuple.
      destruct (String.eqb_spec output ""); [ done | ].
      by rewrite !append_assoc. }
    rewrite IH, Hstep.
    + by rewrite !append_assoc.
    + rewrite Hstep. intros Heq. by apply append_eq_nil in Heq as [? _].
Qed.

Lemma concat_amp_cons (x : string) (xs : list string) :
  String.concat "&" (x :: xs) = x +:+ String.concat "" (map (λ y, "&" +:+ y) xs).
Proof.
  revert x. induction xs as [| y ys IH]; intros x.
  - simpl. by rewrite append_nil_r.
  - change (String.concat "&" (x :: y :: ys))
      with (x +:+ "&" +:+ String.concat "&" (y :: ys)).
    by rewrite (IH y), map_cons, concat_empty_cons, !append_assoc.
Qed.

(** [toString] joins the encoded tuples with [&]. *)
Lemma toString_concat (sp : URLSearchParams.t) :
  URLSearchParams.toString sp =
  String.concat "&"
    (map (λ t, urlencoded_serialize (fst t) +:+ "=" +:+ urlencoded_serialize (snd t)) sp).
Proof.
  unfold URLSearchParams.toString. destruct sp as [| t sp]; [ done | ].
  rewrite map_cons, concat_amp_cons. simpl fold_left.
  rewrite serialize_from_nonempty.
  - unfold URLSearchParams.serialize_tuple. simpl. rewrite append_nil_l. f_equal.
    by rewrite map_map.
  - unfold URLSearchParams.serialize_tuple. simpl. rewrite append_nil_l.
    intros Heq. apply append_eq_nil in Heq as [_ Heq]. discriminate Heq.
Qed.

(** The code's query string is the specification's. *)
Lemma query_string_refines (entries : Params) :
  URLSearchParams.toString (fold_left append_defined entries URLSearchParams.new)
  = spec_query_string entries.
Proof.
  rewrite fold_append_defined, toString_concat. unfold URLSearchParams.new.
  rewrite app_nil_l, map_map. done.
Qed.

Lemma spec_query_string_empty (entries : Params) :
  spec_query_string entries = "" ↔
  filter (λ e, is_defined (snd e) = true) entries = [].
Proof.
  unfold spec_query_string. split.
  - destruct (filter _ entries) as [| e rest]; [ done | ].
    rewrite map_cons, concat_amp_cons. intros Heq.
    apply append_eq_nil in Heq as [Heq _]. by apply spec_pair_nonempty in Heq.
  - by intros ->.
Qed.

Lemma no_defined_entries (entries : Params) :
  filter (λ e, is_defined (snd e) = true) entries = [] ↔
  Forall (λ e, snd e = PUndefined) entries.
Proof.
  induction entries as [| [key value] entries IH].
  - split; [ constructor | done ].
  - rewrite filter_cons. destruct value; simpl; split.
    + intros Hnil. constructor; [ done | by apply IH ].
    + intros Hall. apply IH. by inversion Hall.
    + discriminate.
    + intros Hall. inversion Hall as [| ? ? Hhead]. discriminate Hhead.
    + discriminate.
    + intros Hall. inversion Hall as [| ? ? Hhead]. discriminate Hhead.
Qed.

Lemma request_url_spec (this : MarketplaceClient) (endpoint : string)
    (ps : option Params) :
  request_url this endpoint ps = baseUrl this +:+ endpoint +:+ query_suffix ps.
Proof.
  unfold request_url, query_suffix. destruct ps as [entries |].
  - rewrite query_string_refines. unfold truthy_string.
    destruct (String.eqb_spec (spec_query_string entries) ""); case_decide; try done.
    + by rewrite !append_nil_r.
    + by rewrite !append_assoc.
  - by rewrite !append_nil_r.
Qed.

Lemma request_sent_urls (this : MarketplaceClient) (fn : Fetch)
    (endpoint : string) (options : option RequestOptions) (w : World) :
  fetchFn this = Some fn →
  sent_urls (request this endpoint options) w =
  (map call_url (fetch_log w)
     ++ [baseUrl this +:+ endpoint +:+ query_suffix (params (nullish options noOptions))])%list.
Proof.
  intros Hfn. unfold sent_urls. rewrite (request_with_fetch _ fn) by done.
  simpl. rewrite map_app. simpl. by rewrite request_url_spec.
Qed.


(** ** The slug in the path (C5) *)

Lemma occurs_app (ch : ascii) (a b : string) :
  occurs ch (a +:+ b) = occurs ch a || occurs ch b.
Proof.
  induction a as [| d a IH]; [ done | ].
  rewrite append_cons. simpl. by rewrite IH, orb_assoc.
Qed.

(** What one byte of the slug becomes. *)
Lemma encodeURIComponent_cons (c : ascii) (s : string) :
  encodeURIComponent (String c s) =
  (if uriUnreserved c then String c "" else Chars.percent_byte c)
    +:+ encodeURIComponent s.
Proof. simpl. by destruct (uriUnreserved c). Qed.

Lemma encoded_byte_safe (c : ascii) :
  let e := if uriUnreserved c then String c "" else Chars.percent_byte c in
  occurs "/" e = false ∧ occurs "?" e = false ∧ occurs "#" e = false.
Proof.
  destruct c as [[] [] [] [] [] [] [] []]; vm_compute; done.
Qed.

Lemma encodeURIComponent_safe (s : string) :
  occurs "/" (encodeURIComponent s) = false
  ∧ occurs "?" (encodeURIComponent s) = false
  ∧ occurs "#" (encodeURIComponent s) = false.
Proof.
  induction s as [| c s (IH1 & IH2 & IH3)]; [ done | ].
  rewrite encodeURIComponent_cons, !occurs_app, IH1, IH2, IH3.
  destruct (encoded_byte_safe c) as (-> & -> & ->). done.
Qed.

Lemma decode_unreserved (c : ascii) (s : string) :
  uriUnreserved c = true →
  percent_decode (String c s) = String c (percent_decode s).
Proof.
  destruct c as [[] [] [] [] [] [] [] []]; intros Hc;
    first [ discriminate Hc | reflexivity ].
Qed.

Lemma decode_percent_byte (c : ascii) (s : string) :
  percent_decode (Chars.percent_byte c +:+ s) = String c (percent_decode s).
Proof.
  destruct c as [[] [] [] [] [] [] [] []]; reflexivity.
Qed.

(** Nothing of the slug is lost: decoding the [%XX] gives it back. *)
Lemma percent_decode_encode (s : string) :
  percent_decode (encodeURIComponent s) = s.
Proof.
  induction s as [| c s IH]; [ done | ].
  rewrite encodeURIComponent_cons.
  destruct (uriUnreserved c) eqn:Hc.
  - rewrite append_cons, append_nil_l, decode_unreserved by done. by rewrite IH.
  - by rewrite decode_percent_byte, IH.
Qed.

Lemma occurs_cons (ch d : ascii) (s : string) :
  occurs ch (String d s) = Ascii.eqb ch d || occurs ch s.
Proof. reflexivity. Qed.

Lemma path_segments_String (c : ascii) (rest : string) :
  path_segments (String c rest) =
  if Ascii.eqb c "/" then "" :: path_segments rest
  else match path_segments rest with
       | seg :: segs => String c seg :: segs
       | [] => [String c ""]
       end.
Proof. reflexivity. Qed.

Lemma path_segments_cons (s : string) :
  ∃ seg segs, path_segments s = seg :: segs.
Proof.
  induction s as [| c s (seg & segs & IH)]; [ by eexists _, _ | ].
  rewrite path_segments_String.
  destruct (Ascii.eqb c "/"); [ by eexists _, _ | ].
  rewrite IH. by eexists _, _.
Qed.

(** A prefix without [/] stays in the first segment. *)
Lemma path_segments_prefix (s t : string) :
  occurs "/" s = false →
  path_segments (s +:+ t) =
  match path_segments t with
  | seg :: segs => (s +:+ seg) :: segs
  | [] => [s]
  end.
Proof.
  induction s as [| c s IH]; intros Hs.
  - rewrite append_nil_l. by destruct (path_segments_cons t) as (seg & segs & ->).
  - rewrite occurs_cons in Hs. apply orb_false_elim in Hs as [Hc Hs].
    rewrite append_cons, path_segments_String, Ascii.eqb_sym, Hc, IH by done.
    by destruct (path_segments_cons t) as (seg & segs & ->).
Qed.

Lemma path_segments_slash (t : string) :
  path_segments (String "/" t) = "" :: path_segments t.
Proof. reflexivity. Qed.

(** The path of a per-extension endpoint, cut at its slashes. *)
Lemma extension_path_segments (e rest : string) :
  occurs "/" e = false →
  path_segments ("/extensions/" +:+ e +:+ rest) =
  match path_segments rest with
  | seg :: segs => "" :: "extensions" :: (e +:+ seg) :: segs
  | [] => ["" ; "extensions"; e]
  end.
Proof.
  intros He.
  change ("/extensions/" +:+ e +:+ rest)
    with (String "/" ("extensions" +:+ String "/" (e +:+ rest))).
  rewrite path_segments_slash, path_segments_prefix by done.
  rewrite path_segments_slash, path_segments_prefix by done.
  by destruct (path_segments_cons rest) as (seg & segs & ->).
Qed.



(** ** The version parameter of [getDownloadUrl] (C6, C10) *)

(** C6: without a version the URL sent by [getDownloadUrl] ends with
    [/download], with no query string at all; with version [1.2.3] it
    ends with [/download?version=1.2.3]. *)
Theorem download_url_version
    (b : string) (p v : option string) (fn : Fetch) (slug : string) (w : World) :
  let this := mkClient b p v (Some fn) in
  sent_urls (getDownloadUrl this slug None) w =
    (map call_url (fetch_log w)
       ++ [b +:+ "/extensions/" +:+ encodeURIComponent slug +:+ "/download"])%list
  ∧ sent_urls (getDownloadUrl this slug (Some "1.2.3")) w =
    (map call_url (fetch_log w)
       ++ [b +:+ ("/extensions/" +:+ encodeURIComponent slug +:+ "/download")
             +:+ "?version=1.2.3"])%list
  ∧ sent_urls (getDownloadUrl this "foo" None) w =
    (map call_url (fetch_log w) ++ [b +:+ "/extensions/foo/download"])%list
  ∧ sent_urls (getDownloadUrl this "foo" (Some "1.2.3")) w =
    (map call_url (fetch_log w) ++ [b +:+ "/extensions/foo/download" +:+ "?version=1.2.3"])%list.
Proof.
  intros this. unfold getDownloadUrl.
  rewrite !(request_sent_urls this fn) by done. simpl.
  rewrite !append_nil_r. done.
Qed.

(** C10: an empty-string version is dropped by the truthiness test: the
    call is the very same computation as the call without a version, and
    the URL sent has no query string. *)
Theorem empty_version_is_no_version
    (b : string) (p v : option string) (fn : option Fetch) (f : Fetch)
    (slug : string) (w : World) :
  getDownloadUrl (mkClient b p v fn) slug (Some "")
    = getDownloadUrl (mkClient b p v fn) slug None
  ∧ sent_urls (getDownloadUrl (mkClient b p v (Some f)) slug (Some "")) w =
    (map call_url (fetch_log w)
       ++ [b +:+ "/extensions/" +:+ encodeURIComponent slug +:+ "/download"])%list.
Proof.
  split; [ reflexivity | ].
  unfold getDownloadUrl. rewrite (request_sent_urls _ f) by done. simpl.
  by rewrite append_nil_r.
Qed.

(** ** Settlement of the call (C3, C7, C9) *)

Lemma perform_stub (b : string) (p v : option string) (response : Response)
    (op : Operation) (w : World) :
  fst (perform (mkClient b p v (Some (stub response))) op w) = settled response.
Proof.
  destruct (perform_with_fetch (mkClient b p v (Some (stub response)))
              (stub response) eq_refl op w) as [call ->].
  reflexivity.
Qed.

Lemma request_stub (b : string) (p v : option string) (response : Response)
    (endpoint : string) (options : option RequestOptions) (w : World) :
  fst (request (mkClient b p v (Some (stub response))) endpoint options w)
  = settled response.
Proof. by rewrite (request_with_fetch _ (stub response)). Qed.

Lemma http_message_truthy (response : Response) :
  ToBoolean (JString (http_message response)) = true.
Proof. reflexivity. Qed.

(** Success: the settlement of [json()] is handed on as it is. *)
Lemma settled_ok (response : Response) :
  ok response = true → settled response = json response.
Proof.
  intros Hok. unfold settled, settle. rewrite Hok. reflexivity.
Qed.


(** Failure, body decoded and its [error] readable. *)
Lemma settled_with_field (response : Response) (body field : JsValue) :
  ok response = false → json response = Resolved body →
  read_error body = ret field →
  settled response =
  Rejected (MarketplaceApiError
              (ToString (js_or field (JString (http_message response))))
              (status response)).
Proof.
  intros Hok Hjson Hread. unfold settled, settle, bind, await.
  rewrite Hok, Hjson. simpl. rewrite Hread. reflexivity.
Qed.

(** Failure, body decoded, [error] absent or falsy: the fallback message. *)
Lemma falsy_error_falls_back (response : Response) (body field : JsValue) :
  ok response = false → json response = Resolved body →
  read_error body = ret field → ToBoolean field = false →
  settled response =
  Rejected (MarketplaceApiError (http_message response) (status response)).
Proof.
  intros Hok Hjson Hread Hfalsy.
  rewrite (settled_with_field response body field) by done.
  unfold js_or. by rewrite Hfalsy.
Qed.

(** Failure, body decoded to [null]: the read of [error] throws. *)
Lemma settled_null (response : Response) :
  ok response = false → json response = Resolved JNull →
  settled response = Rejected null_read.
Proof.
  intros Hok Hjson. unfold settled, settle, bind, await. rewrite Hok, Hjson.
  reflexivity.
Qed.




(** C7: for a response that is ok, every operation settles as [json()] of
    that response does, with nothing done to the decoded body; in
    particular [listExtensions()] on a 200 with the empty listing resolves
    to that very object. *)
Theorem success_returns_body
    (b : string) (p v : option string) (op : Operation) (endpoint : string)
    (options : option RequestOptions) (w : World) (response : Response) :
  ok response = true →
  fst (perform (mkClient b p v (Some (stub response))) op w) = json response
  ∧ fst (request (mkClient b p v (Some (stub response))) endpoint options w)
    = json response
  ∧ fst (listExtensions
           (mkClient b p v (Some (stub (fetch_response 200 (Resolved empty_listing)))))
           None w)
    = Resolved empty_listing.
Proof.
  intros Hok. split; [ | split ].
  - by rewrite perform_stub, settled_ok.
  - by rewrite request_stub, settled_ok.
  - unfold listExtensions. by rewrite request_stub.
Qed.

Lemma success_returns_body_witness :
  fst (perform (mkClient "https://h" None None
                  (Some (stub (fetch_response 200 (Resolved empty_listing)))))
               (ListExtensions None) (fresh_world None))
    = Resolved empty_listing.
Proof.
  refine (proj1 (success_returns_body "https://h" None None (ListExtensions None)
                   "/extensions" None (fresh_world None)
                   (fetch_response 200 (Resolved empty_listing)) _)).
  reflexivity.
Defined.

(** C9, on the failing input: a response that is not ok and whose body is
    the JSON value [null] (it decodes, and has no [error] field) makes
    every operation reject with the [TypeError] of the property read, not
    with a [MarketplaceApiError] carrying [HTTP <status>]. *)
Theorem null_body_raises_type_error
    (b : string) (p v : option string) (op : Operation) (w : World) (st : Z) :
  fst (perform (mkClient b p v (Some (stub (mkResponse false st (Resolved JNull))))) op w)
    = Rejected null_read
  ∧ fst (getExtension
           (mkClient b p v (Some (stub (fetch_response 500 (Resolved JNull)))))
           "missing" w)
    = Rejected (TypeError "Cannot read properties of null (reading 'error')").
Proof.
  split.
  - rewrite perform_stub. by apply settled_null.
  - change (getExtension ?c "missing") with (perform c (GetExtension "missing")).
    rewrite perform_stub. reflexivity.
Qed.

(** On every body other than [null] the fallback is reached: whenever the
    read of [error] yields a falsy value (the field is absent, empty, [0],
    [false] or [null]) the message is [HTTP <status>]. *)
Lemma falsy_error_gives_http_message
    (b : string) (p v : option string) (op : Operation) (w : World)
    (st : Z) (body field : JsValue) :
  read_error body = ret field → ToBoolean field = false →
  fst (perform (mkClient b p v (Some (stub (mkResponse false st (Resolved body))))) op w)
    = Rejected (MarketplaceApiError ("HTTP " +:+ NumberToString st) st).
Proof.
  intros Hread Hfalsy. rewrite perform_stub.
  by rewrite (falsy_error_falls_back _ body field).
Qed.

(** ** Further properties of the client *)

(** *** The query string can be read back *)

(** What one byte of a name or value becomes in the query string. *)
Lemma urlencoded_serialize_cons (c : ascii) (s : string) :
  urlencoded_serialize (String c s) =
  (if Ascii.eqb c " " then "+"
   else if form_safe c then String c "" else Chars.percent_byte c)
    +:+ urlencoded_serialize s.
Proof.
  simpl. destruct (Ascii.eqb c " "); [ done | ]. by destruct (form_safe c).
Qed.

Lemma plus_to_space_app (a b : string) :
  plus_to_space (a +:+ b) = plus_to_space a +:+ plus_to_space b.
Proof.
  induction a as [| c a IH]; [ done | ].
  rewrite append_cons. simpl. by rewrite IH, append_cons.
Qed.

Lemma form_byte_decodes (c : ascii) (t : string) :
  percent_decode
    (plus_to_space (if Ascii.eqb c " " then "+"
                    else if form_safe c then String c "" else Chars.percent_byte c)
       +:+ t)
  = String c (percent_decode t).
Proof.
  destruct c as [[] [] [] [] [] [] [] []]; reflexivity.
Qed.

Lemma form_byte_plain (c : ascii) :
  let piece := if Ascii.eqb c " " then "+"
               else if form_safe c then String c "" else Chars.percent_byte c in
  occurs "&" piece = false ∧ occurs "=" piece = false
  ∧ forall_chars url_tail_char piece = true.
Proof.
  destruct c as [[] [] [] [] [] [] [] []]; vm_compute; done.
Qed.

Lemma form_decode_serialize (s : string) :
  form_decode (urlencoded_serialize s) = s.
Proof.
  unfold form_decode. induction s as [| c s IH]; [ done | ].
  by rewrite urlencoded_serialize_cons, plus_to_space_app, form_byte_decodes, IH.
Qed.

Lemma forall_chars_app (test : ascii → bool) (a b : string) :
  forall_chars test (a +:+ b) = forall_chars test a && forall_chars test b.
Proof.
  induction a as [| c a IH]; [ done | ].
  rewrite append_cons. simpl. by rewrite IH, andb_assoc.
Qed.

Lemma urlencoded_serialize_plain (s : string) :
  occurs "&" (urlencoded_serialize s) = false
  ∧ occurs "=" (urlencoded_serialize s) = false
  ∧ forall_chars url_tail_char (urlencoded_serialize s) = true.
Proof.
  induction s as [| c s (IH1 & IH2 & IH3)]; [ done | ].
  rewrite urlencoded_serialize_cons, !occurs_app, forall_chars_app, IH1, IH2, IH3.
  destruct (form_byte_plain c) as (-> & -> & ->). done.
Qed.

Lemma split_on_String (c d : ascii) (rest : string) :
  split_on c (String d rest) =
  if Ascii.eqb d c then "" :: split_on c rest
  else match split_on c rest with
       | piece :: pieces => String d piece :: pieces
       | [] => [String d ""]
       end.
Proof. reflexivity. Qed.

Lemma split_on_cons (c : ascii) (s : string) :
  ∃ piece pieces, split_on c s = piece :: pieces.
Proof.
  induction s as [| d s (piece & pieces & IH)]; [ by eexists _, _ | ].
  rewrite split_on_String. destruct (Ascii.eqb d c); [ by eexists _, _ | ].
  rewrite IH. by eexists _, _.
Qed.

(** A piece without the separator, then the separator: the piece is the
    first element. *)
Lemma split_on_piece (c : ascii) (a b : string) :
  occurs c a = false →
  split_on c (a +:+ String c b) = a :: split_on c b.
Proof.
  induction a as [| d a IH]; intros Ha.
  - rewrite append_nil_l, split_on_String. by rewrite Ascii.eqb_refl.
  - rewrite occurs_cons in Ha. apply orb_false_elim in Ha as [Hd Ha].
    rewrite append_cons, split_on_String, Ascii.eqb_sym, Hd, IH by done. done.
Qed.

Lemma split_on_last (c : ascii) (a : string) :
  occurs c a = false → split_on c a = [a].
Proof.
  induction a as [| d a IH]; intros Ha; [ done | ].
  rewrite occurs_cons in Ha. apply orb_false_elim in Ha as [Hd Ha].
  rewrite split_on_String, Ascii.eqb_sym, Hd, IH by done. done.
Qed.

Lemma cut_at_String (c d : ascii) (rest : string) :
  cut_at c (String d rest) =
  if Ascii.eqb d c then ("", Some rest)
  else let (before, after) := cut_at c rest in (String d before, after).
Proof. reflexivity. Qed.

Lemma cut_at_first (c : ascii) (a b : string) :
  occurs c a = false → cut_at c (a +:+ String c b) = (a, Some b).
Proof.
  induction a as [| d a IH]; intros Ha.
  - rewrite append_nil_l, cut_at_String. by rewrite Ascii.eqb_refl.
  - rewrite occurs_cons in Ha. apply orb_false_elim in Ha as [Hd Ha].
    rewrite append_cons, cut_at_String, Ascii.eqb_sym, Hd, IH by done. done.
Qed.

(** One serialized tuple, as the text [name=value]. *)
Lemma tuple_text_plain (t : string * string) :
  let text := urlencoded_serialize (fst t) +:+ "=" +:+ urlencoded_serialize (snd t) in
  occurs "&" text = false ∧ text ≠ "" ∧ parse_tuple text = t
  ∧ forall_chars url_tail_char text = true.
Proof.
  destruct t as [name value]. simpl.
  destruct (urlencoded_serialize_plain name) as (Hn1 & Hn2 & Hn3).
  destruct (urlencoded_serialize_plain value) as (Hv1 & Hv2 & Hv3).
  split; [ | split; [ | split ] ].
  - by rewrite !occurs_app, Hn1, Hv1.
  - intros Heq. apply append_eq_nil in Heq as [_ Heq]. discriminate Heq.
  - unfold parse_tuple.
    change ("=" +:+ urlencoded_serialize value)
      with (String "=" (urlencoded_serialize value)).
    rewrite cut_at_first by done. simpl. by rewrite !form_decode_serialize.
  - by rewrite !forall_chars_app, Hn3, Hv3.
Qed.

Lemma parse_query_concat (sp : list (string * string)) :
  parse_query
    (String.concat "&"
       (map (λ t, urlencoded_serialize (fst t) +:+ "=" +:+ urlencoded_serialize (snd t)) sp))
  = sp.
Proof.
  unfold parse_query. induction sp as [| t sp IH]; [ done | ].
  destruct (tuple_text_plain t) as (Hamp & Hne & Hparse & _). simpl in Hamp, Hne, Hparse.
  destruct sp as [| t' sp].
  - simpl String.concat. rewrite split_on_last by done.
    rewrite filter_cons. case_decide; [ | done ]. simpl. by rewrite Hparse.
  - rewrite map_cons.
    change (String.concat "&" (?x :: map ?f (t' :: sp)))
      with (x +:+ String "&" (String.concat "&" (map f (t' :: sp)))).
    rewrite split_on_piece by done.
    rewrite filter_cons. case_decide; [ | done ].
    rewrite map_cons, Hparse. f_equal. exact IH.
Qed.

Lemma spec_query_string_reads_back (entries : Params) :
  parse_query (spec_query_string entries) = defined_pairs entries.
Proof.
  pose proof (parse_query_concat (defined_pairs entries)) as Hback.
  unfold defined_pairs in Hback at 1. rewrite map_map in Hback. exact Hback.
Qed.

(** X1. Whatever tuples a [URLSearchParams] holds, parsing its
    [toString()] gives the same tuples back, in the same order; hence the
    query string that [request] builds from a parameter mapping parses back
    to exactly the defined entries of the mapping, values as strings. *)
Theorem query_string_reads_back
    (sp : URLSearchParams.t) (this : MarketplaceClient) (endpoint : string)
    (entries : Params) :
  parse_query (URLSearchParams.toString sp) = sp
  ∧ ∃ query,
      request_url this endpoint (Some entries) =
        baseUrl this +:+ endpoint +:+ (if decide (query = "") then "" else "?" +:+ query)
      ∧ parse_query query = defined_pairs entries.
Proof.
  split.
  - rewrite toString_concat. apply parse_query_concat.
  - exists (spec_query_string entries). split.
    + apply request_url_spec.
    + apply spec_query_string_reads_back.
Qed.

(** X2. Two parameter mappings give the same request URL only if they
    have the same defined entries, as strings and in the same order: no
    choice of keys or values (with [&], [=], [+], [%] or spaces in them) makes
    one mapping pass for another. *)
Theorem request_url_injective
    (this : MarketplaceClient) (endpoint : string) (entries entries' : Params) :
  request_url this endpoint (Some entries) = request_url this endpoint (Some entries') →
  defined_pairs entries = defined_pairs entries'.
Proof.
  rewrite !request_url_spec. intros Heq.
  apply (inj (String.append _)), (inj (String.append _)) in Heq.
  rewrite <- !spec_query_string_reads_back. unfold query_suffix in Heq.
  repeat case_decide; try done; try congruence.
  by apply (inj (String.append "?")) in Heq as ->.
Qed.

Lemma request_url_injective_witness :
  defined_pairs [("page", PNumber 1); ("tags", PUndefined)]
  = defined_pairs [("page", PString "1")].
Proof.
  exact (request_url_injective
           (mkClient "https://h" None None None) "/extensions"
           [("page", PNumber 1); ("tags", PUndefined)] [("page", PString "1")]
           eq_refl).
Defined.

(** *** What is appended to the base URL *)







(** *** The headers and options handed to fetch *)

Lemma set_if_truthy_lookup (name name' : string) (value : option string)
    (hs : gmap string string) :
  set_if_truthy name value hs !! name' =
  if decide (name' = name ∧ truthy_opt value = true) then value else hs !! name'.
Proof.
  unfold set_if_truthy, truthy_opt. destruct value as [x |].
  - destruct (truthy_string x) eqn:Hx.
    + case_decide as Hd.
      * destruct Hd as [-> _]. apply lookup_insert_eq.
      * apply lookup_insert_ne. intros <-. by apply Hd.
    + case_decide as Hd; [ by destruct Hd | done ].
  - case_decide as Hd; [ by destruct Hd | done ].
Qed.

(** X4. The headers of the one call are completely determined: a truthy
    configured app version or platform owns its header; every other header
    the caller supplies is passed on unchanged; [Content-Type] is
    [application/json] exactly when the caller supplies none; nothing else is
    added. The remaining members of the caller's options are passed on as
    they are. *)
Theorem headers_of_request
    (b : string) (p v : option string) (f : Fetch) (endpoint : string)
    (ps : option Params) (fo : RequestInit) (w : World) (name : string) :
  ∃ call,
    fetch_log (snd (request (mkClient b p v (Some f)) endpoint
                            (Some {| params := ps; fetchOptions := fo |}) w))
      = (fetch_log w ++ [call])%list
    ∧ other (call_init call) = other fo
    ∧ call_headers call !! name =
        if decide (name = "X-App-Version" ∧ truthy_opt v = true) then v
        else if decide (name = "X-Platform" ∧ truthy_opt p = true) then p
        else match nullish (headers fo) ∅ !! name with
             | Some x => Some x
             | None => if decide (name = "Content-Type")
                       then Some "application/json" else None
             end.
Proof.
  eexists. rewrite (request_with_fetch _ f) by done.
  split; [ reflexivity | ]. split; [ reflexivity | ].
  unfold call_headers, request_call, request_headers.
  cbn [call_init headers nullish fetchOptions appVersion platform].
  rewrite !set_if_truthy_lookup. do 2 (case_decide; [ done | ]).
  rewrite lookup_union. destruct (nullish (headers fo) ∅ !! name) as [x |].
  - by destruct (_ !! name).
  - rewrite (left_id None _). case_decide as Hn.
    + subst name. apply lookup_singleton_eq.
    + by apply lookup_singleton_ne.
Qed.

(** *** Responses that are not ok *)






(** *** Parameters of the public operations *)

(** X7. For every non-empty version, [getDownloadUrl] sends the download
    endpoint followed by [?version=] and the form-encoded version, and that
    query string parses back to the single pair [version] and the version
    given. *)
Theorem download_url_any_version
    (b : string) (p v : option string) (f : Fetch) (slug version : string) (w : World) :
  version ≠ "" →
  sent_urls (getDownloadUrl (mkClient b p v (Some f)) slug (Some version)) w =
    (map call_url (fetch_log w)
       ++ [b +:+ ("/extensions/" +:+ encodeURIComponent slug +:+ "/download")
             +:+ "?version=" +:+ urlencoded_serialize version])%list
  ∧ parse_query ("version=" +:+ urlencoded_serialize version) = [("version", version)].
Proof.
  intros Hne. split.
  - unfold getDownloadUrl. cbn [truthy_opt]. rewrite truthy_string_ne by done.
    rewrite (request_sent_urls _ f) by done.
    cbn [baseUrl nullish with_params params query_suffix].
    case_decide as Hq; [ | done ].
    apply spec_query_string_empty in Hq. rewrite filter_cons in Hq. by case_decide.
  - apply (parse_query_concat [("version", version)]).
Qed.

Lemma download_url_any_version_witness :
  sent_urls (getDownloadUrl (mkClient "https://h" None None (Some (failing (ForeignError "offline"))))
               "my ext" (Some "2.0.0-beta+1")) (fresh_world None)
  = ["https://h/extensions/my%20ext/download?version=2.0.0-beta%2B1"].
Proof.
  refine (proj1 (download_url_any_version "https://h" None None
                   (failing (ForeignError "offline")) "my ext" "2.0.0-beta+1"
                   (fresh_world None) _)).
  discriminate.
Defined.

Lemma query_suffix_all_undefined (entries : Params) :
  Forall (λ e, snd e = PUndefined) entries → query_suffix (Some entries) = "".
Proof.
  intros Hall. unfold query_suffix. case_decide as Hq; [ done | ].
  exfalso. apply Hq. by apply spec_query_string_empty, no_defined_entries.
Qed.

(** X8. A parameter object whose values are all [undefined] (the empty
    object among them) makes [listExtensions] and [listReviews] the very same
    computation as calling them with no parameter object. *)
Theorem undefined_params_are_no_params
    (this : MarketplaceClient) (slug : string) (entries : Params) :
  Forall (λ e, snd e = PUndefined) entries →
  listExtensions this (Some entries) = listExtensions this None
  ∧ listReviews this slug (Some entries) = listReviews this slug None.
Proof.
  intros Hall.
  assert (Hurl : ∀ endpoint,
    request_url this endpoint (Some entries) = request_url this endpoint None).
  { intros endpoint. rewrite !request_url_spec.
    by rewrite (query_suffix_all_undefined entries Hall). }
  unfold listExtensions, listReviews, request, with_params.
  cbn [nullish params fetchOptions]. by rewrite !Hurl.
Qed.

Lemma undefined_params_are_no_params_witness :
  listExtensions (mkClient "https://h" None None None)
    (Some [("page", PUndefined); ("search", PUndefined)])
  = listExtensions (mkClient "https://h" None None None) None.
Proof.
  refine (proj1 (undefined_params_are_no_params (mkClient "https://h" None None None)
                   "x" [("page", PUndefined); ("search", PUndefined)] _)).
  repeat constructor.
Defined.

(** ** The reactive wrapper *)

Section Wrapper.

Variable foreign_is_Error : string → bool.

(** [withLoading] around an arrow function: the function starts with the
    loading flag set and the error slot empty; afterwards the flag is
    cleared, and the slot is written exactly when the function rejected. *)
Lemma withLoading_run {A} (fn : UseMarketplace.V A) (s : UseMarketplace.Refs) (w : World) :
  UseMarketplace.withLoading foreign_is_Error fn s w =
  match fn (UseMarketplace.started s) w with
  | (Resolved a, s', w') =>
      (Resolved a, UseMarketplace.finished (UseMarketplace.error s') s', w')
  | (Rejected e, s', w') =>
      (Rejected e,
       UseMarketplace.finished (Some (UseMarketplace.as_Error foreign_is_Error e)) s', w')
  end.
Proof.
  unfold UseMarketplace.withLoading, UseMarketplace.vbind, UseMarketplace.try_finally,
    UseMarketplace.try_catch, UseMarketplace.set_isLoading, UseMarketplace.set_error,
    UseMarketplace.vthrow.
  cbn. fold (UseMarketplace.started s).
  by destruct (fn (UseMarketplace.started s) w) as [[[a | e] s'] w'].
Qed.

Lemma run_is_withLoading (client : MarketplaceClient) (op : UseMarketplace.Wrapped) :
  UseMarketplace.run foreign_is_Error client op =
  UseMarketplace.withLoading foreign_is_Error (UseMarketplace.callback client op).
Proof. by destruct op. Qed.

(** The arrow functions await the client operation first; they assign
    data refs only, and do nothing more to the world. *)
Lemma callback_awaits (client : MarketplaceClient) (op : UseMarketplace.Wrapped)
    (s : UseMarketplace.Refs) (w : World) :
  match perform client (UseMarketplace.client_operation op) w with
  | (Rejected e, w') => UseMarketplace.callback client op s w = (Rejected e, s, w')
  | (Resolved _, w') =>
      ∃ r s', UseMarketplace.callback client op s w = (r, s', w')
              ∧ UseMarketplace.isLoading s' = UseMarketplace.isLoading s
              ∧ UseMarketplace.error s' = UseMarketplace.error s
  end.
Proof.
  destruct op as [ps | slug | | slug version | slug]; simpl perform;
    simpl UseMarketplace.callback;
    unfold UseMarketplace.fetchExtensions_fn, UseMarketplace.fetchExtension_fn,
           UseMarketplace.fetchCategories_fn, UseMarketplace.getDownloadUrl_fn,
           UseMarketplace.fetchVersions_fn, UseMarketplace.vbind, UseMarketplace.lift,
           UseMarketplace.try_value, UseMarketplace.vret,
           UseMarketplace.set_extensions, UseMarketplace.set_extensionsTotal,
           UseMarketplace.set_currentExtension, UseMarketplace.set_categories.
  - destruct (listExtensions client ps w) as [[response | e] w']; [ | done ].
    destruct (read_property "extensions" response) as [exts | e1]; [ | by eexists _, _ ].
    destruct (read_property "pagination" response) as [pagination | e2];
      [ | by eexists _, _ ].
    destruct (read_property "total" pagination) as [total | e3]; by eexists _, _.
  - destruct (getExtension client slug w) as [[extension | e] w']; [ | done ].
    by eexists _, _.
  - destruct (listCategories client w) as [[response | e] w']; [ | done ].
    destruct (read_property "categories" response) as [cats | e1]; by eexists _, _.
  - destruct (getDownloadUrl client slug version w) as [[response | e] w'];
      [ | done ].
    by eexists _, _.
  - destruct (listVersions client slug w) as [[response | e] w']; [ | done ].
    destruct (read_property "versions" response) as [versions | e1]; by eexists _, _.
Qed.

(** X9. After every wrapped operation, however it ends, the loading flag
    is cleared; the error slot is empty if the operation resolved (an error
    left by an earlier call is gone), and if it rejected with [e] the slot
    holds [e] itself when [e] is an [Error] object and [new Error(String(e))]
    otherwise. *)
Theorem wrapped_call_flags
    (client : MarketplaceClient) (op : UseMarketplace.Wrapped)
    (s : UseMarketplace.Refs) (w : World) :
  UseMarketplace.isLoading (UseMarketplace.run foreign_is_Error client op s w).1.2 = false
  ∧ match (UseMarketplace.run foreign_is_Error client op s w).1.1 with
    | Resolved _ =>
        UseMarketplace.error (UseMarketplace.run foreign_is_Error client op s w).1.2 = None
    | Rejected e =>
        UseMarketplace.error (UseMarketplace.run foreign_is_Error client op s w).1.2
        = Some (UseMarketplace.as_Error foreign_is_Error e)
    end.
Proof.
  rewrite run_is_withLoading, withLoading_run.
  pose proof (callback_awaits client op (UseMarketplace.started s) w) as Hcb.
  destruct (perform client (UseMarketplace.client_operation op) w) as [[a | e] w'].
  - destruct Hcb as (r & s' & -> & _ & Herr). by destruct r.
  - by rewrite Hcb.
Qed.

Lemma run_after_failure
    (client : MarketplaceClient) (op : UseMarketplace.Wrapped)
    (s : UseMarketplace.Refs) (w : World) (e : JsError) :
  fst (perform client (UseMarketplace.client_operation op) w) = Rejected e →
  UseMarketplace.run foreign_is_Error client op s w =
    (Rejected e,
     UseMarketplace.finished (Some (UseMarketplace.as_Error foreign_is_Error e)) s,
     snd (perform client (UseMarketplace.client_operation op) w)).
Proof.
  intros Hfail. rewrite run_is_withLoading, withLoading_run.
  pose proof (callback_awaits client op (UseMarketplace.started s) w) as Hcb.
  destruct (perform client (UseMarketplace.client_operation op) w) as [[a | e'] w'];
    simpl in Hfail; [ discriminate Hfail | ].
  injection Hfail as ->. by rewrite Hcb.
Qed.

(** X10. When the client operation rejects, the wrapped operation rejects
    with the same value, records it in the error slot, clears the loading
    flag and leaves the four data refs exactly as they were; the world is
    the one the client operation left. *)
Theorem wrapped_call_failure
    (client : MarketplaceClient) (op : UseMarketplace.Wrapped)
    (s : UseMarketplace.Refs) (w : World) (e : JsError) :
  fst (perform client (UseMarketplace.client_operation op) w) = Rejected e →
  UseMarketplace.run foreign_is_Error client op s w =
    (Rejected e,
     UseMarketplace.finished (Some (UseMarketplace.as_Error foreign_is_Error e)) s,
     snd (perform client (UseMarketplace.client_operation op) w)).
Proof. apply run_after_failure. Qed.

(** X11. A wrapped operation does to the world exactly what the client
    operation it awaits does: the same single call of the fetch function,
    and no call at all where the client makes none. *)
Theorem wrapped_call_world
    (client : MarketplaceClient) (op : UseMarketplace.Wrapped)
    (s : UseMarketplace.Refs) (w : World) :
  (UseMarketplace.run foreign_is_Error client op s w).2
  = snd (perform client (UseMarketplace.client_operation op) w).
Proof.
  rewrite run_is_withLoading, withLoading_run.
  pose proof (callback_awaits client op (UseMarketplace.started s) w) as Hcb.
  destruct (perform client (UseMarketplace.client_operation op) w) as [[a | e] w'].
  - destruct Hcb as (r & s' & -> & _). by destruct r.
  - by rewrite Hcb.
Qed.

(** X12. [fetchExtensions], when the client resolves with a response
    whose [pagination] has a readable [total]: it resolves with the response
    itself, [extensions] holds [response.extensions], [extensionsTotal] holds
    [response.pagination.total], the error slot is empty, the loading flag
    cleared, and the other refs are untouched. *)
Theorem fetchExtensions_success
    (client : MarketplaceClient) (ps : option Params)
    (s : UseMarketplace.Refs) (w : World) (response exts pagination total : JsValue) :
  fst (listExtensions client ps w) = Resolved response →
  read_property "extensions" response = Resolved exts →
  read_property "pagination" response = Resolved pagination →
  read_property "total" pagination = Resolved total →
  UseMarketplace.fetchExtensions foreign_is_Error client ps s w =
    (Resolved response,
     {| UseMarketplace.isLoading := false;
        UseMarketplace.error := None;
        UseMarketplace.extensions := exts;
        UseMarketplace.extensionsTotal := total;
        UseMarketplace.currentExtension := UseMarketplace.currentExtension s;
        UseMarketplace.categories := UseMarketplace.categories s |},
     snd (listExtensions client ps w)).
Proof.
  intros Hres Hexts Hpag Htotal.
  unfold UseMarketplace.fetchExtensions. rewrite withLoading_run.
  unfold UseMarketplace.fetchExtensions_fn, UseMarketplace.vbind, UseMarketplace.lift,
    UseMarketplace.try_value.
  destruct (listExtensions client ps w) as [r w']. simpl in Hres. subst r.
  by rewrite Hexts; cbn; rewrite Hpag; cbn; rewrite Htotal.
Qed.

(** X13. [fetchExtensions], when the client resolves with a response
    whose [pagination] is missing or [null]: the call rejects with the
    [TypeError] of reading [total], but [extensions] has already been
    overwritten with [response.extensions]; [extensionsTotal] keeps its old
    value, so the two refs no longer belong to the same response. *)
Theorem fetchExtensions_partial_update
    (client : MarketplaceClient) (ps : option Params)
    (s : UseMarketplace.Refs) (w : World) (response exts pagination : JsValue) :
  fst (listExtensions client ps w) = Resolved response →
  read_property "extensions" response = Resolved exts →
  read_property "pagination" response = Resolved pagination →
  pagination = JUndefined ∨ pagination = JNull →
  UseMarketplace.fetchExtensions foreign_is_Error client ps s w =
    (Rejected (cannot_read pagination "total"),
     {| UseMarketplace.isLoading := false;
        UseMarketplace.error :=
          Some (UseMarketplace.Caught (cannot_read pagination "total"));
        UseMarketplace.extensions := exts;
        UseMarketplace.extensionsTotal := UseMarketplace.extensionsTotal s;
        UseMarketplace.currentExtension := UseMarketplace.currentExtension s;
        UseMarketplace.categories := UseMarketplace.categories s |},
     snd (listExtensions client ps w)).
Proof.
  intros Hres Hexts Hpag Hmissing.
  unfold UseMarketplace.fetchExtensions. rewrite withLoading_run.
  unfold UseMarketplace.fetchExtensions_fn, UseMarketplace.vbind, UseMarketplace.lift,
    UseMarketplace.try_value.
  destruct (listExtensions client ps w) as [r w']. simpl in Hres. subst r.
  rewrite Hexts; cbn; rewrite Hpag; cbn.
  by destruct Hmissing as [-> | ->].
Qed.

(** X14. [fetchExtension], when the client resolves: it resolves with the
    same value and stores it in [currentExtension], whatever the value is;
    the error slot is empty and the other data refs are untouched. *)
Theorem fetchExtension_success
    (client : MarketplaceClient) (slug : string)
    (s : UseMarketplace.Refs) (w : World) (extension : JsValue) :
  fst (getExtension client slug w) = Resolved extension →
  UseMarketplace.fetchExtension foreign_is_Error client slug s w =
    (Resolved extension,
     {| UseMarketplace.isLoading := false;
        UseMarketplace.error := None;
        UseMarketplace.extensions := UseMarketplace.extensions s;
        UseMarketplace.extensionsTotal := UseMarketplace.extensionsTotal s;
        UseMarketplace.currentExtension := extension;
        UseMarketplace.categories := UseMarketplace.categories s |},
     snd (getExtension client slug w)).
Proof.
  intros Hres. unfold UseMarketplace.fetchExtension. rewrite withLoading_run.
  unfold UseMarketplace.fetchExtension_fn, UseMarketplace.vbind, UseMarketplace.lift.
  destruct (getExtension client slug w) as [r w']. simpl in Hres. by subst r.
Qed.

(** X15. [fetchCategories], when the client resolves with a response that
    is not [null]: it resolves with [response.categories], not with the
    response, and stores the same value in [categories]; a response without
    that field makes both [undefined] and raises no error. *)
Theorem fetchCategories_success
    (client : MarketplaceClient)
    (s : UseMarketplace.Refs) (w : World) (response cats : JsValue) :
  fst (listCategories client w) = Resolved response →
  read_property "categories" response = Resolved cats →
  UseMarketplace.fetchCategories foreign_is_Error client s w =
    (Resolved cats,
     {| UseMarketplace.isLoading := false;
        UseMarketplace.error := None;
        UseMarketplace.extensions := UseMarketplace.extensions s;
        UseMarketplace.extensionsTotal := UseMarketplace.extensionsTotal s;
        UseMarketplace.currentExtension := UseMarketplace.currentExtension s;
        UseMarketplace.categories := cats |},
     snd (listCategories client w)).
Proof.
  intros Hres Hcats. unfold UseMarketplace.fetchCategories. rewrite withLoading_run.
  unfold UseMarketplace.fetchCategories_fn, UseMarketplace.vbind, UseMarketplace.lift,
    UseMarketplace.try_value.
  destruct (listCategories client w) as [r w']. simpl in Hres. subst r.
  rewrite !Hcats. cbn. by rewrite ?Hcats.
Qed.

(** X16. The wrapped [getDownloadUrl] and [fetchVersions] never assign a
    data ref, whether they resolve or reject; [getDownloadUrl] settles
    exactly as the client's [getDownloadUrl] does. *)
Theorem download_and_versions_keep_data
    (client : MarketplaceClient) (slug : string) (version : option string)
    (s : UseMarketplace.Refs) (w : World) :
  UseMarketplace.data
    (UseMarketplace.getDownloadUrl foreign_is_Error client slug version s w).1.2
    = UseMarketplace.data s
  ∧ (UseMarketplace.getDownloadUrl foreign_is_Error client slug version s w).1.1
    = fst (getDownloadUrl client slug version w)
  ∧ UseMarketplace.data
      (UseMarketplace.fetchVersions foreign_is_Error client slug s w).1.2
    = UseMarketplace.data s.
Proof.
  unfold UseMarketplace.getDownloadUrl, UseMarketplace.fetchVersions.
  rewrite !withLoading_run.
  unfold UseMarketplace.getDownloadUrl_fn, UseMarketplace.fetchVersions_fn,
    UseMarketplace.vbind, UseMarketplace.lift, UseMarketplace.try_value.
  destruct (getDownloadUrl client slug version w) as [[r | e] w'];
    destruct (listVersions client slug w) as [[r' | e'] w''];
    try destruct (read_property "versions" r'); done.
Qed.

End Wrapper.

Lemma wrapped_call_failure_witness :
  UseMarketplace.run (λ _, false)
    (mkClient "https://h" None None (Some (failing (ForeignError "offline"))))
    (UseMarketplace.FetchVersions "a") UseMarketplace.initial (fresh_world None)
  = (Rejected (ForeignError "offline"),
     UseMarketplace.finished (Some (UseMarketplace.NewError "offline"))
       UseMarketplace.initial,
     snd (perform (mkClient "https://h" None None (Some (failing (ForeignError "offline"))))
            (ListVersions "a") (fresh_world None))).
Proof.
  exact (wrapped_call_failure (λ _, false)
           (mkClient "https://h" None None (Some (failing (ForeignError "offline"))))
           (UseMarketplace.FetchVersions "a") UseMarketplace.initial (fresh_world None)
           (ForeignError "offline") eq_refl).
Defined.

Lemma fetchExtensions_success_witness :
  UseMarketplace.fetchExtensions (λ _, true)
    (mkClient "https://h" None None
       (Some (stub (fetch_response 200 (Resolved empty_listing)))))
    None UseMarketplace.initial (fresh_world None)
  = (Resolved empty_listing,
     {| UseMarketplace.isLoading := false;
        UseMarketplace.error := None;
        UseMarketplace.extensions := JArray [];
        UseMarketplace.extensionsTotal := JNumber 0;
        UseMarketplace.currentExtension := JNull;
        UseMarketplace.categories := JArray [] |},
     snd (listExtensions
            (mkClient "https://h" None None
               (Some (stub (fetch_response 200 (Resolved empty_listing)))))
            None (fresh_world None))).
Proof.
  exact (fetchExtensions_success (λ _, true)
           (mkClient "https://h" None None
              (Some (stub (fetch_response 200 (Resolved empty_listing)))))
           None UseMarketplace.initial (fresh_world None)
           empty_listing (JArray [])
           (JObject [("page", JNumber 1); ("limit", JNumber 20);
                     ("total", JNumber 0); ("totalPages", JNumber 0)])
           (JNumber 0) eq_refl eq_refl eq_refl eq_refl).
Defined.

Lemma fetchExtensions_partial_update_witness :
  UseMarketplace.fetchExtensions (λ _, true)
    (mkClient "https://h" None None
       (Some (stub (fetch_response 200
                      (Resolved (JObject [("extensions", JArray [JString "a"])]))))))
    None UseMarketplace.initial (fresh_world None)
  = (Rejected (TypeError "Cannot read properties of undefined (reading 'total')"),
     {| UseMarketplace.isLoading := false;
        UseMarketplace.error :=
          Some (UseMarketplace.Caught
                  (TypeError "Cannot read properties of undefined (reading 'total')"));
        UseMarketplace.extensions := JArray [JString "a"];
        UseMarketplace.extensionsTotal := JNumber 0;
        UseMarketplace.currentExtension := JNull;
        UseMarketplace.categories := JArray [] |},
     snd (listExtensions
            (mkClient "https://h" None None
               (Some (stub (fetch_response 200
                              (Resolved (JObject [("extensions", JArray [JString "a"])])))))) 
            None (fresh_world None))).
Proof.
  exact (fetchExtensions_partial_update (λ _, true)
           (mkClient "https://h" None None
              (Some (stub (fetch_response 200
                             (Resolved (JObject [("extensions", JArray [JString "a"])]))))))
           None UseMarketplace.initial (fresh_world None)
           (JObject [("extensions", JArray [JString "a"])]) (JArray [JString "a"])
           JUndefined eq_refl eq_refl eq_refl (or_introl eq_refl)).
Defined.

Lemma fetchExtension_success_witness :
  UseMarketplace.fetchExtension (λ _, true)
    (mkClient "https://h" None None
       (Some (stub (fetch_response 200 (Resolved (JObject [("slug", JString "a")]))))))
    "a" UseMarketplace.initial (fresh_world None)
  = (Resolved (JObject [("slug", JString "a")]),
     {| UseMarketplace.isLoading := false;
        UseMarketplace.error := None;
        UseMarketplace.extensions := JArray [];
        UseMarketplace.extensionsTotal := JNumber 0;
        UseMarketplace.currentExtension := JObject [("slug", JString "a")];
        UseMarketplace.categories := JArray [] |},
     snd (getExtension
            (mkClient "https://h" None None
               (Some (stub (fetch_response 200 (Resolved (JObject [("slug", JString "a")]))))))
            "a" (fresh_world None))).
Proof.
  exact (fetchExtension_success (λ _, true)
           (mkClient "https://h" None None
              (Some (stub (fetch_response 200 (Resolved (JObject [("slug", JString "a")]))))))
           "a" UseMarketplace.initial (fresh_world None)
           (JObject [("slug", JString "a")]) eq_refl).
Defined.

Lemma fetchCategories_success_witness :
  UseMarketplace.fetchCategories (λ _, true)
    (mkClient "https://h" None None
       (Some (stub (fetch_response 200 (Resolved (JObject []))))))
    UseMarketplace.initial (fresh_world None)
  = (Resolved JUndefined,
     {| UseMarketplace.isLoading := false;
        UseMarketplace.error := None;
        UseMarketplace.extensions := JArray [];
        UseMarketplace.extensionsTotal := JNumber 0;
        UseMarketplace.currentExtension := JNull;
        UseMarketplace.categories := JUndefined |},
     snd (listCategories
            (mkClient "https://h" None None
               (Some (stub (fetch_response 200 (Resolved (JObject []))))))
            (fresh_world None))).
Proof.
  exact (fetchCategories_success (λ _, true)
           (mkClient "https://h" None None
              (Some (stub (fetch_response 200 (Resolved (JObject []))))))
           UseMarketplace.initial (fresh_world None)
           (JObject []) JUndefined eq_refl eq_refl).
Defined.

(** ** Routing and creation *)

Lemma endpoint_of_perform (this : MarketplaceClient) (op : Operation) :
  ∃ options, perform this op = request this (endpoint_of op) options.
Proof. destruct op; by eexists. Qed.

Lemma endpoint_segments (op : Operation) :
  path_segments (endpoint_of op) =
  match op with
  | ListExtensions _ => [""; "extensions"]
  | GetExtension slug => [""; "extensions"; encodeURIComponent slug]
  | ListCategories => [""; "categories"]
  | GetDownloadUrl slug _ => [""; "extensions"; encodeURIComponent slug; "download"]
  | ListVersions slug => [""; "extensions"; encodeURIComponent slug; "versions"]
  | ListReviews slug _ => [""; "extensions"; encodeURIComponent slug; "reviews"]
  | Health => [""; "health"]
  end.
Proof.
  destruct op as [ps | slug | | slug version | slug | slug ps |];
    try reflexivity; simpl endpoint_of;
    destruct (encodeURIComponent_safe slug) as (Hslash & _ & _).
  - pose proof (extension_path_segments _ "" Hslash) as Hseg.
    simpl in Hseg. by rewrite !append_nil_r in Hseg.
  - pose proof (extension_path_segments _ "/download" Hslash) as Hseg.
    simpl in Hseg. by rewrite append_nil_r in Hseg.
  - pose proof (extension_path_segments _ "/versions" Hslash) as Hseg.
    simpl in Hseg. by rewrite append_nil_r in Hseg.
  - pose proof (extension_path_segments _ "/reviews" Hslash) as Hseg.
    simpl in Hseg. by rewrite append_nil_r in Hseg.
Qed.

Lemma encodeURIComponent_inj (s s' : string) :
  encodeURIComponent s = encodeURIComponent s' → s = s'.
Proof.
  intros Heq. by rewrite <- (percent_decode_encode s), Heq, percent_decode_encode.
Qed.

(** X17. Every public operation calls [request] with its endpoint, and
    the endpoint alone tells which operation was called and for which slug:
    two operations have the same endpoint only if they are the same
    operation on the same slug (they may differ in query parameters only).
    In particular no slug, whatever characters it contains, makes one
    per-extension endpoint pass for another. *)
Theorem endpoints_are_unambiguous (this : MarketplaceClient) (op op' : Operation) :
  (∃ options, perform this op = request this (endpoint_of op) options)
  ∧ (endpoint_of op = endpoint_of op' → without_params op = without_params op').
Proof.
  split; [ apply endpoint_of_perform | ].
  intros Heq. apply (f_equal path_segments) in Heq.
  rewrite !endpoint_segments in Heq.
  destruct op, op'; simpl; try discriminate Heq; try reflexivity;
    injection Heq as Heq; apply encodeURIComponent_inj in Heq; by subst.
Qed.

Lemma endpoints_are_unambiguous_witness :
  without_params (ListReviews "a b" (Some [("page", PNumber 2)]))
  = without_params (ListReviews "a b" None).
Proof.
  exact (proj2 (endpoints_are_unambiguous (mkClient "https://h" None None None)
                  (ListReviews "a b" (Some [("page", PNumber 2)]))
                  (ListReviews "a b" None)) eq_refl).
Defined.

(** X18. A composable created with no [fetch] option where no ambient
    fetch exists is created all the same, with empty refs; from then on
    every wrapped operation rejects with the [TypeError] of calling
    [undefined], records it in the error slot, clears the loading flag,
    changes no data ref and calls nothing, whatever fetch the world offers by
    then. *)
Theorem composable_without_fetch
    (foreign_is_Error : string → bool) (b p v : option string)
    (log : list FetchCall) (op : UseMarketplace.Wrapped) (w : World) :
  ∃ client,
    UseMarketplace.useMarketplace (Some (MarketplaceClientOptions.mk b p v None))
      (mkWorld None log)
    = (Resolved (client, UseMarketplace.initial), mkWorld None log)
    ∧ UseMarketplace.run foreign_is_Error client op UseMarketplace.initial w
      = (Rejected not_a_function,
         UseMarketplace.finished (Some (UseMarketplace.Caught not_a_function))
           UseMarketplace.initial,
         w).
Proof.
  eexists. split; [ reflexivity | ].
  rewrite (run_after_failure foreign_is_Error _ op _ w not_a_function);
    by rewrite perform_without_fetch.
Qed.
